(** * pywbem: data-model notebook, CI control file and Debian rules

    The repository excerpt consists of three artefacts:
    - [docs/notebooks/datamodel.ipynb]: a notebook whose code cell uses
      [pywbem.CIMInstance] as a dictionary with case-insensitive names;
    - [.travis.yml]: the control file of the CI service;
    - [packaging/debian/rules]: a makefile driving the Debian packaging.

    The two scripts are data interpreted by an external tool (the CI
    service, [make]).  They are embedded as data, exactly as written, and
    run by small interpreters of those tools; every external command is
    opaque and acts on an abstract world through [exec]. *)

From Stdlib Require Import Ascii String List Bool Arith Lia.
From stdpp Require Import base tactics option list strings sorting gmap.

Local Open Scope string_scope.
Local Open Scope list_scope.

(** ** Part 1. The data model of the notebook *)

Module DataModel.

(** ASCII lower-casing, the host language's [str.lower] on the ASCII
    range. *)
Definition lower_ascii (c : ascii) : ascii :=
  let n := nat_of_ascii c in
  if (65 <=? n)%nat && (n <=? 90)%nat then ascii_of_nat (n + 32) else c.

Fixpoint lower (s : string) : string :=
  match s with
  | EmptyString => EmptyString
  | String c r => String (lower_ascii c) (lower r)
  end.

(** Two names "differ only in letter case": same length, and position by
    position the same character up to case. *)
Fixpoint eq_nocase (a b : string) : bool :=
  match a, b with
  | EmptyString, EmptyString => true
  | String x a', String y b' =>
      Ascii.eqb (lower_ascii x) (lower_ascii y) && eq_nocase a' b'
  | _, _ => false
  end.

Section Instance.

(** The typed values of properties; the notebook only uses strings, and
    nothing below depends on what a value is. *)
Context {V : Type}.

(** Modelled from the spec: [pywbem.CIMInstance] is not part of the
    excerpt (only the notebook cell calling it is).  The spec describes an
    instance as "a named collection of property-name-to-typed-value
    mappings, with case-insensitive property-name lookup": a class name
    and the properties in assignment order, each under the spelling it was
    assigned with. *)
Record CIMInstance := mkCIMInstance {
  classname : string;
  properties : list (string * V)
}.

(** [pywbem.CIMInstance('CIM_Person')] *)
Definition new_instance (cn : string) : CIMInstance :=
  {| classname := cn; properties := [] |}.

(** Modelled from the spec: assignment of one property; a property whose
    name equals the new one up to case is replaced, so that a name maps to
    one value. *)
Fixpoint assign (ps : list (string * V)) (name : string) (v : V)
  : list (string * V) :=
  match ps with
  | [] => [(name, v)]
  | (k, x) :: r =>
      if eq_nocase k name then (name, v) :: r
      else (k, x) :: assign r name v
  end.

(** Modelled from the spec: case-insensitive lookup; [None] stands for
    the host language's [KeyError]. *)
Fixpoint find_nocase (ps : list (string * V)) (name : string) : option V :=
  match ps with
  | [] => None
  | (k, x) :: r => if eq_nocase k name then Some x else find_nocase r name
  end.

(** [inst[name] = v] *)
Definition setitem (inst : CIMInstance) (name : string) (v : V)
  : CIMInstance :=
  {| classname := classname inst;
     properties := assign (properties inst) name v |}.

(** [inst[name]] *)
Definition getitem (inst : CIMInstance) (name : string) : option V :=
  find_nocase (properties inst) name.

(** [inst.items()] *)
Definition items (inst : CIMInstance) : list (string * V) :=
  properties inst.

End Instance.

Arguments CIMInstance V : clear implicits.

(** The code cell of the notebook. *)
Definition notebook_inst : CIMInstance string :=
  setitem (setitem (new_instance "CIM_Person") "Firstname" "Tim")
          "Lastname" "Potter".

Definition notebook_cell : list (string * string) * option string :=
  (items notebook_inst, getitem notebook_inst "firstname").

End DataModel.

(** ** Part 2. External commands *)

Module Script.

(** An executed command together with its exit status ([true] is exit
    code 0).  A trace lists the commands in the order they ran; a command
    only appears once it has returned. *)
Abbreviation event := (string * bool)%type.

(** What the scripts see of the machine they run on: running a command
    line gives an exit status and a new world, and a file has a
    modification time when it exists. *)
Class World (W : Type) := {
  exec : string → W → bool * W;
  mtime : W → string → option nat
}.

Definition mem (x : string) (l : list string) : bool :=
  existsb (String.eqb x) l.

Definition ran (c : string) (tr : list event) : Prop :=
  ∃ ok, (c, ok) ∈ tr.

Definition all_ok (cs : list string) : list event :=
  map (λ c, (c, true)) cs.

End Script.

(** ** Part 3. [packaging/debian/rules] *)

Module Rules.
Import Script.

(** A recipe line; [ignore_errors] is the [-] prefix of the line. *)
Record recipe_line := Line {
  ignore_errors : bool;
  command : string
}.

Record rule := Rule {
  target : string;
  prereqs : list string;
  recipe : list recipe_line
}.

Record makefile := Makefile {
  variables : list (string * string);
  rules : list rule;
  phony : list string
}.

Definition run := Line false.
Definition try := Line true.

(** The rules file, rule by rule.  Trailing blanks of recipe lines are
    dropped, the continuation line of [install] is joined, and the line
    commented out in [binary-arch] is left out.  [$(CURDIR)] is make's name
    of the directory it runs in; [PYTHON] and [PYVER] are set when the file
    is read and no rule refers to them. *)
Definition find_pyc : string := "find . -name '*.py[co]' | xargs rm -f".
Definition setup_install : string :=
  "python setup.py install --root=$(CURDIR)/debian/python-pywbem".

Definition build_rule : rule :=
  Rule "build" ["build-stamp"] [].

Definition build_stamp_rule : rule :=
  Rule "build-stamp" []
    [ run "dh_testdir";
      run "python setup.py build";
      run "touch build-stamp";
      run "touch build-stamp" ].

Definition clean_rule : rule :=
  Rule "clean" []
    [ run "dh_testdir";
      run "dh_testroot";
      run "rm -rf build-stamp build";
      try find_pyc;
      run "dh_clean" ].

Definition install_rule : rule :=
  Rule "install" ["build"]
    [ run "dh_testdir";
      run "dh_testroot";
      run "dh_clean -k";
      run "dh_installdirs";
      run setup_install ].

Definition binary_indep_rule : rule :=
  Rule "binary-indep" ["build"; "install"]
    [ run "dh_testdir";
      run "dh_testroot";
      run "dh_installdocs -i README";
      run "dh_installchangelogs -i";
      run "dh_compress -i";
      run "dh_fixperms -i";
      run "dh_pycentral -i";
      run "dh_installdeb -i";
      run "dh_gencontrol -i";
      run "dh_md5sums -i";
      run "dh_builddeb -i" ].

Definition binary_arch_rule : rule :=
  Rule "binary-arch" ["build"; "install"]
    [ run "dh_testdir";
      run "dh_testroot";
      run "dh_installdocs -a -A README";
      run "dh_installchangelogs -a";
      run "dh_strip -a";
      run "dh_compress -a";
      run "dh_fixperms -a";
      run "dh_pycentral -a";
      run "dh_installdeb -a";
      run "dh_shlibdeps -a";
      run "dh_gencontrol -a";
      run "dh_md5sums -a";
      run "dh_builddeb -a" ].

Definition binary_rule : rule :=
  Rule "binary" ["binary-indep"; "binary-arch"] [].

Definition debian_rules : makefile :=
  Makefile
    [ ("PYTHON", "/usr/bin/python");
      ("PYVER", "$(shell $(PYTHON) -c 'import sys; print sys.version[:3]')") ]
    [ build_rule; build_stamp_rule; clean_rule; install_rule;
      binary_indep_rule; binary_arch_rule; binary_rule ]
    [ "build"; "clean"; "binary-indep"; "binary-arch"; "binary"; "install" ].

Definition commands (r : rule) : list string := map command (recipe r).


(** *** The part of make the rules file relies on *)

Inductive outcome := Success | Error | Exhausted.

Section Make.
Context {W : Type} `{World W}.

(** One run of make: the world, the targets already brought up to date
    in this run, and the commands run so far. *)
Record mstate := MState {
  world : W;
  made : list string;
  trace : list event
}.

Definition start (w : W) : mstate := MState w [] [].

(** A recipe runs line by line; a failing line stops it unless the line
    has the [-] prefix. *)
Fixpoint run_recipe (ls : list recipe_line) (w : W)
  : outcome * W * list event :=
  match ls with
  | [] => (Success, w, [])
  | l :: r =>
      let '(ok, w1) := exec (command l) w in
      if ok || ignore_errors l then
        let '(o, w2, t) := run_recipe r w1 in
        (o, w2, (command l, ok) :: t)
      else (Error, w1, [(command l, ok)])
  end.

Definition find_rule (mf : makefile) (t : string) : option rule :=
  List.find (λ r, String.eqb (target r) t) (rules mf).

(** A target is remade when it is phony, when its file is missing, or
    when a prerequisite is phony, missing or newer. *)
Definition newer_than (mf : makefile) (w : W) (mt : nat) (p : string)
  : bool :=
  mem p (phony mf) ||
  match mtime w p with
  | Some mp => (mt <? mp)%nat
  | None => true
  end.

Definition out_of_date (mf : makefile) (r : rule) (w : W) : bool :=
  mem (target r) (phony mf) ||
  match mtime w (target r) with
  | None => true
  | Some mt => existsb (newer_than mf w mt) (prereqs r)
  end.

(** Prerequisites are considered from left to right; the first error
    ends the run. *)
Fixpoint each (f : string → mstate → outcome * mstate)
         (ts : list string) (st : mstate) : outcome * mstate :=
  match ts with
  | [] => (Success, st)
  | t :: ts' =>
      match f t st with
      | (Success, st1) => each f ts' st1
      | r => r
      end
  end.

Definition mark (t : string) (st : mstate) : mstate :=
  MState (world st) (t :: made st) (trace st).

Definition remake (r : rule) (st : mstate) : outcome * mstate :=
  let '(o, w, tr) := run_recipe (recipe r) (world st) in
  (o, MState w (target r :: made st) (trace st ++ tr)).

(** A target is considered once per run: first its prerequisites, then
    its own recipe if it is out of date.  The fuel bounds the depth of the
    dependency chain. *)
Fixpoint update (fuel : nat) (mf : makefile) (t : string) (st : mstate)
  : outcome * mstate :=
  match fuel with
  | O => (Exhausted, st)
  | S n =>
      if mem t (made st) then (Success, st)
      else
        match find_rule mf t with
        | None =>
            match mtime (world st) t with
            | Some _ => (Success, mark t st)
            | None => (Error, st)
            end
        | Some r =>
            match each (update n mf) (prereqs r) st with
            | (Success, st1) =>
                if out_of_date mf r (world st1) then remake r st1
                else (Success, mark t st1)
            | e => e
            end
        end
  end.

(** [debian/rules goal], as the packaging tools call it. *)
Definition make (goal : string) (w : W) : outcome * mstate :=
  update (S (length (rules debian_rules))) debian_rules goal (start w).

End Make.

End Rules.

(** ** Part 4. [.travis.yml] *)

Module Travis.
Import Script.

(** The conditional expression [[[ $var == pattern ]]] of the shell. *)
Inductive sh_test := TestMatch (var : string) (pattern : string).

(** An entry of a command sequence: a plain command line, or
    [if test; then body; fi]. *)
Inductive sh_cmd :=
  | Simple (c : string)
  | IfThen (t : sh_test) (body : list string).

Record travis_yml := TravisYml {
  sudo : string;
  language : string;
  python : list string;
  install : list sh_cmd;
  script : list sh_cmd;
  after_success : list sh_cmd
}.

(** The double-quote character of the two [python -c] lines. *)
Definition dq : string := String (ascii_of_nat 34) EmptyString.

Definition show_distro : string :=
  "python -c " +:+ dq +:+
  "import platform; print('Demonstration of incorrect distro returned by platform.linux_distribution():'); print(repr(platform.linux_distribution()))"
  +:+ dq.

Definition show_site_packages : string :=
  "python -c " +:+ dq +:+
  "import pip, os; print('Site-packages directory of system Python:'); print(os.path.dirname(os.path.dirname(pip.__file__)))"
  +:+ dq.

Definition install_cmds : list string :=
  [ show_distro;
    show_site_packages;
    "pip list";
    "pip install --upgrade pip";
    "python uninstall_pbr_on_py26.py";
    "make clobber";
    "pip list";
    "make develop";
    "pip install python-coveralls";
    "pip list" ].

Definition script_cmds : list string :=
  [ "make check"; "make build"; "make builddoc"; "make test" ].

Definition travis : travis_yml :=
  TravisYml "required" "python"
    [ "2.6"; "2.7"; "3.4"; "3.5"; "3.6" ]
    (map Simple install_cmds)
    (map Simple script_cmds)
    [ IfThen (TestMatch "TRAVIS_PYTHON_VERSION" "2.7") ["coveralls"] ].

(** Commands listed in a sequence, conditional or not. *)
Definition listed (cs : list sh_cmd) : list string :=
  flat_map (λ c, match c with Simple s => [s] | IfThen _ body => body end) cs.

Definition is_simple (c : sh_cmd) : bool :=
  match c with Simple _ => true | IfThen _ _ => false end.

(** *** The shell *)

(** The right-hand side of [==] inside [[[ ]]] is a pattern: [*] matches
    any string, [?] any character, any other character itself.  Bracket
    expressions and escapes do not occur in the control file. *)
Fixpoint glob_match (p : string) : string → bool :=
  match p with
  | EmptyString => λ s, match s with EmptyString => true | _ => false end
  | String c p' =>
      if Ascii.eqb c "*" then
        fix star (s : string) : bool :=
          glob_match p' s ||
          match s with
          | EmptyString => false
          | String _ s' => star s'
          end
      else if Ascii.eqb c "?" then
        λ s, match s with
             | String _ s' => glob_match p' s'
             | EmptyString => false
             end
      else
        λ s, match s with
             | String d s' => Ascii.eqb c d && glob_match p' s'
             | EmptyString => false
             end
  end.

(** A pattern without wildcard. *)
Fixpoint no_wildcard (p : string) : bool :=
  match p with
  | EmptyString => true
  | String c p' =>
      negb (Ascii.eqb c "*") && negb (Ascii.eqb c "?") && no_wildcard p'
  end.

Definition env := string → string.

Definition eval_test (e : env) (t : sh_test) : bool :=
  match t with TestMatch var pat => glob_match pat (e var) end.

(** The job of one interpreter version sees that version in
    [TRAVIS_PYTHON_VERSION]; a variable that is not set expands to the
    empty string. *)
Definition job_env (version : string) : env :=
  λ x, if String.eqb x "TRAVIS_PYTHON_VERSION" then version else EmptyString.

Section Job.
Context {W : Type} `{World W}.

(** A list [c1; c2; ...]: every command runs, the status is that of the
    last one. *)
Fixpoint run_list (cs : list string) (w : W) : bool * W * list event :=
  match cs with
  | [] => (true, w, [])
  | c :: r =>
      let '(ok, w1) := exec c w in
      match r with
      | [] => (ok, w1, [(c, ok)])
      | _ => let '(ok', w2, t) := run_list r w1 in (ok', w2, (c, ok) :: t)
      end
  end.

(** An [if] whose test fails and that has no [else] returns 0. *)
Definition run_sh (e : env) (c : sh_cmd) (w : W) : bool * W * list event :=
  match c with
  | Simple s => let '(ok, w1) := exec s w in (ok, w1, [(s, ok)])
  | IfThen t body => if eval_test e t then run_list body w else (true, w, [])
  end.

(** *** The CI service *)

(** What a non-zero exit status does to a phase.  [install]: the build
    errors and stops at once.  [script]: the build is marked failed and
    the remaining entries still run.  [after_success]: the status is
    ignored. *)
Inductive on_failure := Abort | Continue | Ignore.

Fixpoint run_phase (p : on_failure) (e : env) (cs : list sh_cmd) (w : W)
  : bool * W * list event :=
  match cs with
  | [] => (true, w, [])
  | c :: r =>
      let '(ok, w1, t1) := run_sh e c w in
      match p with
      | Abort =>
          if ok then
            let '(ok', w2, t2) := run_phase p e r w1 in (ok', w2, t1 ++ t2)
          else (false, w1, t1)
      | Continue =>
          let '(ok', w2, t2) := run_phase p e r w1 in
          (ok && ok', w2, t1 ++ t2)
      | Ignore =>
          let '(_, w2, t2) := run_phase p e r w1 in (true, w2, t1 ++ t2)
      end
  end.

Inductive job_result := Errored | Failed | Passed.

Record job := Job {
  result : job_result;
  final : W;
  log : list event
}.

(** One job of the build matrix: [install], then [script], then
    [after_success] when the script passed. *)
Definition run_job (yml : travis_yml) (version : string) (w : W) : job :=
  let e := job_env version in
  let '(ok1, w1, t1) := run_phase Abort e (install yml) w in
  if ok1 then
    let '(ok2, w2, t2) := run_phase Continue e (script yml) w1 in
    if ok2 then
      let '(_, w3, t3) := run_phase Ignore e (after_success yml) w2 in
      Job Passed w3 (t1 ++ t2 ++ t3)
    else Job Failed w2 (t1 ++ t2)
  else Job Errored w1 t1.

(** The [after_success] sequence on its own. *)
Definition run_after_success (version : string) (w : W)
  : bool * W * list event :=
  run_phase Ignore (job_env version) (after_success travis) w.

(** The commands a job of the control file runs, in order. *)
Definition commands_run (version : string) (w : W) : list string :=
  map fst (log (run_job travis version w)).

End Job.




(** Every command the control file lists, in the order of the file. *)
Definition pipeline : list string :=
  listed (install travis) ++ listed (script travis)
  ++ listed (after_success travis).


End Travis.

(** ** Part 5. A machine to run the scripts on *)

Module Machine.
Import Script.

(** Files with their modification times, a clock, and the command lines
    that fail on this machine. *)
Record machine := MkMachine {
  files : gmap string nat;
  clock : nat;
  failing : list string
}.

Definition tick (m : machine) (fs : gmap string nat) : machine :=
  MkMachine fs (S (clock m)) (failing m).

Definition effect (c : string) (m : machine) : machine :=
  if String.eqb c "touch build-stamp" then
    tick m (<["build-stamp" := clock m]> (files m))
  else if String.eqb c "python setup.py build" then
    tick m (<["build" := clock m]> (files m))
  else if String.eqb c "rm -rf build-stamp build" then
    tick m (delete "build" (delete "build-stamp" (files m)))
  else tick m (files m).

Definition machine_exec (c : string) (m : machine) : bool * machine :=
  if mem c (failing m) then (false, m) else (true, effect c m).

#[export] Instance machine_world : World machine := {|
  exec := machine_exec;
  mtime := λ m f, files m !! f
|}.

(** A fresh source tree on which every command works. *)
Definition fresh : machine := MkMachine ∅ 0 [].

(** The same tree on a machine where the given commands fail. *)
Definition broken (cs : list string) : machine := MkMachine ∅ 0 cs.

(** A directory that holds a file [build-stamp], on a machine where the
    given commands fail. *)
Definition stamped (cs : list string) : machine :=
  MkMachine {[ "build-stamp" := 0 ]} 1 cs.

End Machine.

(** ** Part 6. The order in which make runs the recipes *)

Module Schedule.
Import Script Rules.

Section Schedule.
Context {W : Type} `{World W}.

(** What a run leaves behind: its outcome, the world and the commands. *)
Definition obs (r : outcome * @mstate W) : outcome * W * list event :=
  (r.1, world r.2, trace r.2).

(** The recipes of the given rules one after the other, up to the first
    that fails. *)
Fixpoint run_rules (rs : list rule) (st : mstate) : outcome * mstate :=
  match rs with
  | [] => (Success, st)
  | r :: rs' =>
      match remake r st with
      | (Success, st1) => run_rules rs' st1
      | e => e
      end
  end.

(** [build-stamp] is the one target that is a file: its recipe is due
    when the file is missing. *)
Definition stamp (w : W) : list rule :=
  match mtime w "build-stamp" with
  | None => [build_stamp_rule]
  | Some _ => []
  end.

(** The recipes a goal of the rules file leads to, in the order make
    reaches them. *)
Definition plan (w : W) (goal : string) : list rule :=
  if String.eqb goal "build-stamp" then stamp w
  else if String.eqb goal "build" then stamp w ++ [build_rule]
  else if String.eqb goal "clean" then [clean_rule]
  else if String.eqb goal "install" then
    stamp w ++ [build_rule; install_rule]
  else if String.eqb goal "binary-indep" then
    stamp w ++ [build_rule; install_rule; binary_indep_rule]
  else if String.eqb goal "binary-arch" then
    stamp w ++ [build_rule; install_rule; binary_arch_rule]
  else if String.eqb goal "binary" then
    stamp w ++ [build_rule; install_rule; binary_indep_rule;
                binary_arch_rule; binary_rule]
  else [].

End Schedule.

(** The commands of a recipe whose failure make ignores. *)
Definition ignored (ls : list recipe_line) : list string :=
  map command (filter (λ l, ignore_errors l = true) ls).

(** The targets of the rules file. *)
Definition targets : list string := map target (rules debian_rules).

(** The targets whose recipes change files. *)
Definition state_changing : list string :=
  ["build-stamp"; "clean"; "install"; "binary-indep"; "binary-arch"].

(** A failed command that did not stop the run it is part of. *)
Definition failure_ignored (tr : list event) : Prop :=
  ∃ pre c post, tr = pre ++ (c, false) :: post ∧ post ≠ [].

End Schedule.

(** ** Part 6b. The order of the commands in a run *)

Module Order.
Import Script Rules Schedule.

(** In the command list [cs], every command that [needs] the guard [g]
    comes after an occurrence of [g]; [seen] tells whether [g] has occurred
    before [cs]. *)
Fixpoint guarded_by (g : string) (needs : string → bool) (seen : bool)
         (cs : list string) : bool :=
  match cs with
  | [] => true
  | c :: r =>
      (seen || negb (needs c))
      && guarded_by g needs (seen || String.eqb c g) r
  end.

(** How often a command occurs in a list of commands. *)
Definition times (c : string) (cs : list string) : nat :=
  length (List.filter (String.eqb c) cs).

(** The commands that touch the stamp file. *)
Definition is_touch_stamp (c : string) : bool :=
  String.eqb c "touch build-stamp".

(** The two checks and the commands of the [build-stamp] recipe; every
    other command of the rules file stands behind a [dh_testroot]. *)
Definition before_root_check : list string :=
  ["dh_testdir"; "dh_testroot"; "python setup.py build"; "touch build-stamp"].

Definition behind_root_check (c : string) : bool :=
  negb (mem c before_root_check).

(** The commands that occur more than once in the plan of a goal: the
    two checks open every recipe, and the [build-stamp] recipe touches the
    stamp twice. *)
Definition repeated : list string :=
  ["dh_testdir"; "dh_testroot"; "touch build-stamp"].

(** Every plan a goal can have, with the stamp file present or missing. *)
Definition all_plans : list (list rule) :=
  flat_map
    (λ s, [ s;
            s ++ [build_rule];
            [clean_rule];
            s ++ [build_rule; install_rule];
            s ++ [build_rule; install_rule; binary_indep_rule];
            s ++ [build_rule; install_rule; binary_arch_rule];
            s ++ [build_rule; install_rule; binary_indep_rule;
                  binary_arch_rule; binary_rule];
            [] ])
    [ [build_stamp_rule]; [] ].

Section Order.
Context {W : Type} `{World W}.

(** The commands of a goal's plan, recipe after recipe. *)
Definition plan_commands (w : W) (goal : string) : list string :=
  flat_map commands (plan w goal).

End Order.

End Order.

(** ** Part 7. Properties of the data model *)

Module DataModelFacts.
Import DataModel.

Lemma eq_nocase_lower (a b : string) :
  eq_nocase a b = true ↔ lower a = lower b.
Proof.
  revert b; induction a as [|x a IH]; intros [|y b]; simpl; try easy.
  rewrite andb_true_iff, Ascii.eqb_eq, IH. split.
  - intros [-> ->]; reflexivity.
  - intros E; injection E; auto.
Qed.

Lemma eq_nocase_refl (a : string) : eq_nocase a a = true.
Proof. apply eq_nocase_lower; reflexivity. Qed.

Lemma eq_nocase_sym (a b : string) : eq_nocase a b = eq_nocase b a.
Proof.
  apply eq_true_iff_eq. rewrite !eq_nocase_lower. split; congruence.
Qed.

Lemma eq_nocase_trans (a b c : string) :
  eq_nocase a b = true → eq_nocase b c = true → eq_nocase a c = true.
Proof. rewrite !eq_nocase_lower. congruence. Qed.

(** A name and its lower-case spelling differ only in case. *)
Lemma eq_nocase_lower_self (a : string) : eq_nocase a (lower a) = true.
Proof.
  induction a as [|x a IH]; simpl; [reflexivity|].
  rewrite IH, andb_true_r.
  destruct x as [[] [] [] [] [] [] [] []]; reflexivity.
Qed.

Section Lookup.
Context {V : Type}.
Implicit Types (ps : list (string * V)) (inst : CIMInstance V).

Lemma find_assign_same ps name name' v :
  eq_nocase name name' = true →
  find_nocase (assign ps name v) name' = Some v.
Proof.
  intros E. induction ps as [|[k x] r IH]; simpl.
  - rewrite E; reflexivity.
  - destruct (eq_nocase k name) eqn:Ek; simpl.
    + rewrite E; reflexivity.
    + destruct (eq_nocase k name') eqn:Ek'; [|exact IH].
      rewrite eq_nocase_sym in E.
      rewrite (eq_nocase_trans _ _ _ Ek' E) in Ek. discriminate.
Qed.

Lemma find_assign_other ps name name' v :
  eq_nocase name name' = false →
  find_nocase (assign ps name v) name' = find_nocase ps name'.
Proof.
  intros E. induction ps as [|[k x] r IH]; simpl.
  - rewrite E; reflexivity.
  - destruct (eq_nocase k name) eqn:Ek; simpl.
    + rewrite E. destruct (eq_nocase k name') eqn:Ek'; [|reflexivity].
      rewrite eq_nocase_sym in Ek.
      rewrite (eq_nocase_trans _ _ _ Ek Ek') in E. discriminate.
    + rewrite IH; reflexivity.
Qed.

(** C1: a property assigned under one spelling of its name is read back
    under every spelling that differs from it only in letter case. *)
Theorem getitem_setitem_nocase inst name name' v :
  eq_nocase name name' = true →
  getitem (setitem inst name v) name' = Some v.
Proof. intros E. unfold getitem, setitem; simpl. by apply find_assign_same. Qed.

(** An assignment leaves the properties of other names as they were. *)
Lemma getitem_setitem_other inst name name' v :
  eq_nocase name name' = false →
  getitem (setitem inst name v) name' = getitem inst name'.
Proof. intros E. unfold getitem, setitem; simpl. by apply find_assign_other. Qed.

End Lookup.

(** The notebook's own example: assigned as [Firstname], read as
    [firstname]. *)
Lemma getitem_setitem_nocase_notebook :
  eq_nocase "Firstname" "firstname" = true ∧
  getitem (setitem (new_instance "CIM_Person") "Firstname" "Tim") "firstname"
  = Some "Tim".
Proof.
  split; [reflexivity|].
  apply (getitem_setitem_nocase (new_instance "CIM_Person")).
  reflexivity.
Defined.

Example notebook_cell_prints :
  notebook_cell = ([("Firstname", "Tim"); ("Lastname", "Potter")], Some "Tim").
Proof. reflexivity. Qed.

End DataModelFacts.

(** ** Part 8. Properties of the rules file *)

Module RulesFacts.
Import Script Rules Schedule.

(** Splitting a list at an element that its first part does not have. *)
Lemma app_split_notin {A} (l1 l2 pre post : list A) (x : A) :
  l1 ++ l2 = pre ++ x :: post → x ∉ l1 →
  ∃ pre', pre = l1 ++ pre' ∧ l2 = pre' ++ x :: post.
Proof.
  revert pre; induction l1 as [|a l1 IH]; intros pre E Hx; simpl in *.
  - by exists pre.
  - destruct pre as [|b pre]; simpl in E; simplify_eq.
    + exfalso; apply Hx; left.
    + destruct (IH pre) as (pre' & -> & ->); [done| |by exists pre'].
      intros ?; apply Hx; by right.
Qed.

Lemma singleton_split {A} (pre post : list A) (x y : A) :
  [y] = pre ++ x :: post → pre = [] ∧ post = [] ∧ x = y.
Proof.
  destruct pre as [|b pre]; simpl; intros E; simplify_eq; [done|].
  by destruct pre.
Qed.

Section Recipes.
Context {W : Type} `{World W}.
Implicit Types (ls : list recipe_line) (w : W) (tr : list event).

Lemma run_recipe_not_exhausted ls w : (run_recipe ls w).1.1 ≠ Exhausted.
Proof.
  revert w; induction ls as [|l r IH]; intros w; simpl; [done|].
  destruct (exec (command l) w) as [ok w1].
  destruct (ok || ignore_errors l); [|done].
  specialize (IH w1). by destruct (run_recipe r w1) as [[o w2] t].
Qed.

(** The commands of a recipe run in the order of its lines. *)
Lemma run_recipe_prefix ls w :
  map fst (run_recipe ls w).2 `prefix_of` map command ls.
Proof.
  revert w; induction ls as [|l r IH]; intros w; simpl; [done|].
  destruct (exec (command l) w) as [ok w1].
  destruct (ok || ignore_errors l).
  - specialize (IH w1). destruct (run_recipe r w1) as [[o w2] t]; simpl in *.
    by apply prefix_cons.
  - simpl. apply prefix_cons, prefix_nil.
Qed.


(** A recipe that succeeds has run every one of its lines. *)
Lemma run_recipe_success ls w w' tr :
  run_recipe ls w = (Success, w', tr) → map fst tr = map command ls.
Proof.
  revert w tr; induction ls as [|l r IH]; intros w tr; simpl.
  - by intros [= <- <-].
  - destruct (exec (command l) w) as [ok w1].
    destruct (ok || ignore_errors l); [|done].
    destruct (run_recipe r w1) as [[o w2] t] eqn:E.
    intros [= -> -> <-]; simpl. f_equal. by eapply IH.
Qed.


(** A command that fails ends the recipe with an error, unless its line
    has the [-] prefix. *)
Lemma run_recipe_failure ls w o w' tr pre c post :
  run_recipe ls w = (o, w', tr) →
  tr = pre ++ (c, false) :: post →
  c ∉ ignored ls →
  post = [] ∧ o = Error.
Proof.
  unfold ignored.
  revert w tr pre; induction ls as [|l r IH]; intros w tr pre; simpl.
  - intros [= <- <- <-] E. by destruct pre.
  - destruct (exec (command l) w) as [ok w1].
    rewrite filter_cons.
    destruct (ok || ignore_errors l) eqn:Eo.
    + destruct (run_recipe r w1) as [[o2 w2] t] eqn:E.
      intros [= -> -> <-] Etr Hc.
      destruct pre as [|e pre]; simpl in Etr; simplify_eq.
      * simpl in Eo. rewrite Eo in Hc. case_decide; [|done].
        exfalso; apply Hc; left.
      * eapply IH; [done..|].
        intros Hin; apply Hc. case_decide; [by right|done].
    + intros [= <- <- <-] Etr _.
      apply singleton_split in Etr as (-> & -> & _). done.
Qed.

Lemma run_recipe_success_clean ls w w' tr c :
  run_recipe ls w = (Success, w', tr) →
  c ∉ ignored ls → (c, false) ∉ tr.
Proof.
  intros E Hc Hin. apply list_elem_of_split in Hin as (pre & post & ->).
  by destruct (run_recipe_failure _ _ _ _ _ _ _ _ E eq_refl Hc).
Qed.

End Recipes.


Section Runs.
Context {W : Type} `{World W}.
Implicit Types (w : W) (st : @mstate W) (tr : list event).

Local Arguments run_recipe : simpl never.

Ltac elem_here :=
  repeat first [apply list_elem_of_here | apply list_elem_of_further].

Ltac recipe_step :=
  match goal with
  | |- context [run_recipe ?ls ?w] =>
      destruct (run_recipe ls w) as [[[] ?] ?] eqn:?; cbn
  end.

Ltac run_make := repeat (unfold remake; cbn; recipe_step).

(** A goal of the rules file runs the recipes of its plan, in that
    order. *)
Lemma make_plan goal w :
  goal ∈ targets →
  obs (make goal w) = obs (run_rules (plan w goal) (start w)).
Proof.
  intros Hg. unfold targets in Hg; cbn in Hg.
  repeat (apply elem_of_cons in Hg as [->|Hg]);
    [..|by apply elem_of_nil in Hg];
    unfold make, plan, stamp; cbn;
    try (destruct (mtime w "build-stamp") eqn:E; cbn);
    run_make; reflexivity.
Qed.

Lemma find_rule_none mf goal :
  goal ∉ map target (rules mf) → find_rule mf goal = None.
Proof.
  unfold find_rule. induction (rules mf) as [|r rs IH]; simpl; [done|].
  intros Hg. destruct (String.eqb_spec (target r) goal) as [<-|_].
  - exfalso; apply Hg; left.
  - apply IH. intros ?; apply Hg; by right.
Qed.

(** Anything else is no goal of the rules file: nothing runs. *)
Lemma make_no_target goal w :
  goal ∉ targets →
  (make goal w).1 ≠ Exhausted ∧
  world (make goal w).2 = w ∧ trace (make goal w).2 = [].
Proof.
  intros Hg. unfold make.
  change (update (S ?n) ?mf goal (start w)) with
    (match find_rule mf goal with
     | None =>
         match mtime w goal with
         | Some _ => (Success, mark goal (start w))
         | None => (Error, start w)
         end
     | Some r =>
         match each (update n mf) (prereqs r) (start w) with
         | (Success, st1) =>
             if out_of_date mf r (world st1) then remake r st1
             else (Success, mark goal st1)
         | e => e
         end
     end).
  rewrite find_rule_none by done. by destruct (mtime w goal).
Qed.

Lemma run_rules_not_exhausted rs st : (run_rules rs st).1 ≠ Exhausted.
Proof.
  revert st; induction rs as [|r rs IH]; intros st; simpl; [done|].
  unfold remake.
  pose proof (run_recipe_not_exhausted (recipe r) (world st)) as Hr.
  destruct (run_recipe (recipe r) (world st)) as [[[] w1] t]; simpl in *;
    [apply IH|done|done].
Qed.

(** The fuel of [make] is enough: a run ends in success or in an
    error. *)
Lemma make_not_exhausted goal w : (make goal w).1 ≠ Exhausted.
Proof.
  destruct (decide (goal ∈ targets)) as [Hg|Hg].
  - pose proof (make_plan goal w Hg) as E. unfold obs in E.
    injection E as E _ _. rewrite E. apply run_rules_not_exhausted.
  - by destruct (make_no_target goal w Hg).
Qed.

(** A failure that is not ignored is the last thing a run of recipes
    does. *)
Lemma run_rules_failure rs st o st' pre c post :
  run_rules rs st = (o, st') →
  (c, false) ∉ trace st →
  (∀ r, r ∈ rs → c ∉ ignored (recipe r)) →
  trace st' = pre ++ (c, false) :: post →
  post = [] ∧ o = Error.
Proof.
  revert st; induction rs as [|r rs IH]; intros st; simpl.
  - intros [= <- <-] Hc _ E. exfalso; apply Hc. rewrite E.
    apply elem_of_app; right; left.
  - unfold remake.
    destruct (run_recipe (recipe r) (world st)) as [[o1 w1] t] eqn:Er.
    intros E Hc Hrs Etr.
    assert (c ∉ ignored (recipe r)) as Hr by (apply Hrs; left).
    destruct o1.
    + eapply IH; [exact E| |by intros; apply Hrs; right|exact Etr].
      simpl. intros Hin. apply elem_of_app in Hin as [Hin|Hin]; [done|].
      by eapply run_recipe_success_clean.
    + injection E as <- <-. simpl in Etr.
      apply app_split_notin in Etr as (pre' & -> & Et); [|done].
      by eapply run_recipe_failure.
    + injection E as <- <-. simpl in Etr.
      apply app_split_notin in Etr as (pre' & -> & Et); [|done].
      by destruct (run_recipe_failure _ _ _ _ _ _ _ _ Er Et Hr).
Qed.




End Runs.

Section Targets.
Context {W : Type} `{World W}.
Implicit Types (w : W).

Ltac elem_here :=
  repeat first [apply list_elem_of_here | apply list_elem_of_further].

Lemma plan_rules w goal r : r ∈ plan w goal → r ∈ rules debian_rules.
Proof.
  unfold plan, stamp.
  repeat match goal with
  | |- context [if ?b then _ else _] =>
      destruct b;
        [destruct (mtime w "build-stamp"); cbn; intros Hr;
         repeat (apply elem_of_cons in Hr as [->|Hr]);
         try (by apply elem_of_nil in Hr); elem_here|]
  end.
  by intros ?%elem_of_nil.
Qed.

(** The find pipeline of [clean] is the only command of the rules file
    with the [-] prefix. *)
Lemma ignored_rules r c :
  r ∈ rules debian_rules → c ∈ ignored (recipe r) → c = find_pyc.
Proof.
  cbn. intros Hr.
  repeat (apply elem_of_cons in Hr as [->|Hr]);
    [..|by apply elem_of_nil in Hr]; cbn;
    try (by intros ?%elem_of_nil).
  by intros ->%list_elem_of_singleton.
Qed.

(** In a run of the rules file a failing command is the last one, the
    find pipeline of [clean] apart. *)
Lemma make_failure_stops goal w pre c post :
  trace (make goal w).2 = pre ++ (c, false) :: post →
  c ≠ find_pyc →
  post = [] ∧ (make goal w).1 = Error.
Proof.
  intros Htr Hc. destruct (decide (goal ∈ targets)) as [Hg|Hg].
  - pose proof (make_plan goal w Hg) as E. unfold obs in E.
    injection E as Eo _ Et. rewrite Eo. rewrite Et in Htr.
    destruct (run_rules (plan w goal) (start w)) as [o st'] eqn:Er.
    eapply run_rules_failure; [exact Er| | |exact Htr].
    + by intros ?%elem_of_nil.
    + intros r Hr Hin. apply Hc.
      eapply ignored_rules; [|done]. by eapply plan_rules.
  - destruct (make_no_target goal w Hg) as (_ & _ & Et).
    rewrite Et in Htr. by destruct pre.
Qed.

Ltac exec_step :=
  match goal with
  | |- context [exec ?c ?w] => destruct (exec c w) as [[] ?] eqn:?; cbn
  end.

(** Once the stamp file is there, [build] has nothing to run. *)
Lemma make_build_stamped w :
  is_Some (mtime w "build-stamp") →
  obs (make "build" w) = (Success, w, []).
Proof.
  intros [n E]. unfold make, obs; cbn. rewrite E; cbn. by rewrite ?E.
Qed.

(** C8: [build] is idempotent.  A successful [build] leaves the stamp
    file behind, and from there a further [build] runs no command and
    leaves the world as it is.  That a successful [touch] leaves its file
    behind is what is asked of the world. *)
Theorem build_idempotent w st1 :
  (∀ w0 w1, exec "touch build-stamp" w0 = (true, w1) →
            is_Some (mtime w1 "build-stamp")) →
  make "build" w = (Success, st1) →
  is_Some (mtime (world st1) "build-stamp") ∧
  obs (make "build" (world st1)) = (Success, world st1, []).
Proof.
  intros Htouch Hmake.
  assert (is_Some (mtime (world st1) "build-stamp")) as Hs;
    [|split; [done|by apply make_build_stamped]].
  revert Hmake. unfold make; cbn.
  destruct (mtime w "build-stamp") as [n|] eqn:E; cbn.
  - rewrite ?E; cbn. intros [= <-]; cbn. rewrite E. by eexists.
  - unfold remake; cbn.
    repeat (exec_step; try discriminate).
    intros [= <-]; cbn. by eapply Htouch.
Qed.

(** C9: in [clean] the exit status of the find pipeline does not
    matter: if the other commands work, [dh_clean] runs after it and
    [clean] succeeds. *)
Theorem clean_ignores_find_failure w w1 w2 w3 w4 w5 b :
  exec "dh_testdir" w = (true, w1) →
  exec "dh_testroot" w1 = (true, w2) →
  exec "rm -rf build-stamp build" w2 = (true, w3) →
  exec find_pyc w3 = (b, w4) →
  exec "dh_clean" w4 = (true, w5) →
  obs (make "clean" w) =
  (Success, w5,
   [ ("dh_testdir", true); ("dh_testroot", true);
     ("rm -rf build-stamp build", true); (find_pyc, b);
     ("dh_clean", true) ]).
Proof.
  intros H1 H2 H3 H4 H5. unfold make, obs; cbn. unfold remake; cbn.
  rewrite H1; cbn. rewrite H2; cbn. rewrite H3; cbn.
  rewrite H4; cbn. rewrite orb_true_r; cbn.
  by rewrite H5.
Qed.

(** Every recipe of the rules file starts with [dh_testdir], and with
    [dh_testroot] next, except that of [build-stamp], which builds and
    touches the stamp and has no use for it. *)
Lemma recipes_test_first r :
  r ∈ rules debian_rules → recipe r ≠ [] →
  take 2 (commands r) = ["dh_testdir"; "dh_testroot"] ∨
  r = build_stamp_rule ∧
  commands r = ["dh_testdir"; "python setup.py build";
                "touch build-stamp"; "touch build-stamp"].
Proof.
  cbn. intros Hr.
  repeat (apply elem_of_cons in Hr as [->|Hr]);
    [..|by apply elem_of_nil in Hr]; cbn; auto; done.
Qed.

(** C10, amended: each state-changing target has [dh_testdir] as the
    first command of its recipe ([dh_testroot] second where root is needed).
    Where [dh_testdir] refuses the directory, the world is as before in
    every case; [clean], [install], [binary-indep] and [binary-arch], and
    [build-stamp] when its stamp file is missing, end in an error at that
    first command and run no other; [build-stamp] with its stamp file present
    is up to date, runs no command and succeeds. *)
Theorem wrong_directory_is_safe goal w :
  goal ∈ state_changing →
  exec "dh_testdir" w = (false, w) →
  (∃ r, find_rule debian_rules goal = Some r ∧
        (take 2 (commands r) = ["dh_testdir"; "dh_testroot"] ∨
         r = build_stamp_rule ∧ take 1 (commands r) = ["dh_testdir"])) ∧
  world (make goal w).2 = w ∧
  ((goal ≠ "build-stamp" ∨ mtime w "build-stamp" = None) ∧
   obs (make goal w) = (Error, w, [("dh_testdir", false)])
   ∨ goal = "build-stamp" ∧ is_Some (mtime w "build-stamp") ∧
     obs (make goal w) = (Success, w, [])).
Proof.
  intros Hg Hd. unfold state_changing in Hg.
  repeat (apply elem_of_cons in Hg as [->|Hg]);
    [..|by apply elem_of_nil in Hg];
    (split; [eexists; split; [reflexivity|cbn; auto]|]);
    unfold make, obs; cbn;
    try (destruct (mtime w "build-stamp") as [n|] eqn:E; cbn);
    unfold remake; cbn; rewrite ?Hd; cbn;
    (split; [done|]);
    first [ right; by eauto
          | left; split; [by auto|done] ].
Qed.

End Targets.

(** *** The rules file on a concrete machine *)

Import Machine.

Lemma machine_touch (m m' : machine) :
  exec "touch build-stamp" m = (true, m') →
  is_Some (mtime m' "build-stamp").
Proof.
  cbn. unfold machine_exec. destruct (mem _ _); [done|].
  intros [= <-]. cbn. rewrite lookup_insert_eq. by eexists.
Qed.

(** The last command of [install] is the installation under the staging
    root. *)
Example install_stages_under_root :
  last (commands install_rule)
  = Some "python setup.py install --root=$(CURDIR)/debian/python-pywbem".
Proof. reflexivity. Qed.


(** [build] twice on a fresh tree. *)
Lemma build_idempotent_fresh :
  is_Some (mtime (world (make "build" fresh).2) "build-stamp") ∧
  obs (make "build" (world (make "build" fresh).2))
  = (Success, world (make "build" fresh).2, []).
Proof.
  apply (build_idempotent fresh (make "build" fresh).2).
  - exact machine_touch.
  - vm_compute; reflexivity.
Defined.

(** [clean] on a machine where the find pipeline fails. *)
Lemma clean_ignores_find_failure_broken :
  (make "clean" (broken [find_pyc])).1 = Success ∧
  trace (make "clean" (broken [find_pyc])).2 =
  [ ("dh_testdir", true); ("dh_testroot", true);
    ("rm -rf build-stamp build", true); (find_pyc, false);
    ("dh_clean", true) ].
Proof.
  pose proof (clean_ignores_find_failure (broken [find_pyc]) _ _ _ _ _ false
                eq_refl eq_refl eq_refl eq_refl eq_refl) as E.
  split; [exact (f_equal (λ x, x.1.1) E) | exact (f_equal snd E)].
Defined.

(** [install] from a directory that [dh_testdir] refuses. *)
Lemma wrong_directory_is_safe_install :
  world (make "install" (broken ["dh_testdir"])).2 = broken ["dh_testdir"] ∧
  obs (make "install" (broken ["dh_testdir"]))
  = (Error, broken ["dh_testdir"], [("dh_testdir", false)]).
Proof.
  destruct (wrong_directory_is_safe "install" (broken ["dh_testdir"]))
    as (_ & Hw & [[_ Ho]|(Hg & _)]).
  - do 2 apply list_elem_of_further. apply list_elem_of_here.
  - reflexivity.
  - by split.
  - discriminate.
Defined.

(** [build-stamp] from a directory that [dh_testdir] refuses and that
    holds a file [build-stamp]: the target is up to date, no command runs
    and make succeeds; the target does not fail. *)
Lemma build_stamp_succeeds_in_wrong_directory :
  "build-stamp" ∈ state_changing ∧
  exec "dh_testdir" (stamped ["dh_testdir"])
  = (false, stamped ["dh_testdir"]) ∧
  obs (make "build-stamp" (stamped ["dh_testdir"]))
  = (Success, stamped ["dh_testdir"], []).
Proof.
  split; [apply list_elem_of_here|].
  split; vm_compute; reflexivity.
Qed.

End RulesFacts.

(** ** Part 9. Properties of the CI control file *)

Module TravisFacts.
Import Script Travis.

Lemma fst_all_ok (cs : list string) : map fst (all_ok cs) = cs.
Proof. induction cs as [|c cs IH]; simpl; by f_equal. Qed.

Lemma all_ok_no_failure (cs : list string) c : (c, false) ∉ all_ok cs.
Proof.
  unfold all_ok. intros Hin. apply list_elem_of_fmap in Hin as (x & [=] & _).
Qed.

(** A pattern without wildcard matches itself only. *)
Lemma glob_match_literal (p s : string) :
  no_wildcard p = true → glob_match p s = String.eqb p s.
Proof.
  revert s; induction p as [|c p IH]; intros s; simpl; [by destruct s|].
  destruct (Ascii.eqb c "*"), (Ascii.eqb c "?"); simpl; try discriminate.
  intros Hp. destruct s as [|d s]; [done|].
  rewrite IH by done. by destruct (Ascii.eqb c d).
Qed.

Lemma glob_match_2_7 (s : string) : glob_match "2.7" s = true ↔ s = "2.7".
Proof.
  rewrite glob_match_literal by reflexivity.
  rewrite String.eqb_eq. split; congruence.
Qed.

Lemma coveralls_test (v : string) :
  eval_test (job_env v) (TestMatch "TRAVIS_PYTHON_VERSION" "2.7") = true
  ↔ v = "2.7".
Proof. unfold eval_test, job_env. cbn [String.eqb]. apply glob_match_2_7. Qed.


Lemma coveralls_not_installed : "coveralls" ∉ install_cmds ++ script_cmds.
Proof. compute_done. Qed.

Lemma install_script_disjoint c : c ∈ install_cmds → c ∈ script_cmds → False.
Proof.
  intros Hi Hs. unfold script_cmds in Hs.
  repeat (apply elem_of_cons in Hs as [->|Hs]);
    [..|by apply elem_of_nil in Hs]; revert Hi; compute_done.
Qed.

Section Jobs.
Context {W : Type} `{World W}.
Implicit Types (w : W) (cs : list string) (e : env).

(** [install]: the commands succeed one after the other, or the first
    failure is the end. *)
Lemma abort_spec cs e w :
  match run_phase Abort e (map Simple cs) w with
  | (true, _, tr) => tr = all_ok cs
  | (false, _, tr) =>
      ∃ pre c, tr = all_ok pre ++ [(c, false)] ∧ (pre ++ [c]) `prefix_of` cs
  end.
Proof.
  revert w; induction cs as [|c cs IH]; intros w; simpl; [done|].
  destruct (exec c w) as [[] w1].
  - specialize (IH w1).
    destruct (run_phase Abort e (map Simple cs) w1) as [[[] w2] t]; simpl.
    + by rewrite IH.
    + destruct IH as (pre & c' & -> & Hp).
      exists (c :: pre), c'. split; [done|]. by apply prefix_cons.
  - exists [], c. split; [done|]. apply prefix_cons, prefix_nil.
Qed.

(** [script]: every command runs; the phase passes when all of them
    do. *)
Lemma continue_spec cs e w :
  match run_phase Continue e (map Simple cs) w with
  | (ok, _, tr) =>
      map fst tr = cs ∧ if ok then tr = all_ok cs else tr ≠ all_ok cs
  end.
Proof.
  revert w; induction cs as [|c cs IH]; intros w; simpl; [done|].
  destruct (exec c w) as [ok w1]. specialize (IH w1).
  destruct (run_phase Continue e (map Simple cs) w1) as [[ok' w2] t]; simpl.
  destruct IH as [E IH]. split; [by rewrite E|].
  destruct ok, ok'; simpl; [by rewrite IH|..]; intros [=]; contradiction.
Qed.

(** [after_success]: [coveralls] for version 2.7, nothing otherwise. *)
Lemma after_success_spec v w :
  (v = "2.7" ∧ (run_after_success v w).2 = [("coveralls", (exec "coveralls" w).1)])
  ∨ (v ≠ "2.7" ∧ (run_after_success v w).2 = []).
Proof.
  unfold run_after_success. cbn -[eval_test job_env].
  pose proof (coveralls_test v) as Hv.
  destruct (eval_test _ _).
  - left. split; [by apply Hv|]. simpl. by destruct (exec "coveralls" w).
  - right. split; [|done]. intros ->.
    destruct Hv as [_ Hv]. by specialize (Hv eq_refl).
Qed.

(** The three ways a job ends. *)
Lemma job_cases v w :
  let j := run_job travis v w in
  (result j = Errored ∧
   ∃ pre c, log j = all_ok pre ++ [(c, false)] ∧
            (pre ++ [c]) `prefix_of` install_cmds)
  ∨ (result j = Failed ∧
     ∃ ts, log j = all_ok install_cmds ++ ts ∧
           map fst ts = script_cmds ∧ ts ≠ all_ok script_cmds)
  ∨ (result j = Passed ∧
     ∃ ta, log j = all_ok install_cmds ++ all_ok script_cmds ++ ta ∧
           (v = "2.7" ∧ (∃ ok, ta = [("coveralls", ok)]) ∨
            v ≠ "2.7" ∧ ta = [])).
Proof.
  unfold run_job. cbn [install script after_success travis].
  pose proof (abort_spec install_cmds (job_env v) w) as H1.
  destruct (run_phase Abort _ _ w) as [[[] w1] t1]; [|left; by split].
  right. subst t1.
  pose proof (continue_spec script_cmds (job_env v) w1) as H2.
  destruct (run_phase Continue _ _ w1) as [[[] w2] t2]; destruct H2 as [H2 H3].
  - right. subst t2.
    pose proof (after_success_spec v w2) as H4. unfold run_after_success in H4.
    cbn [after_success travis] in H4.
    destruct (run_phase Ignore _ _ w2) as [[ok3 w3] t3]; simpl in *.
    split; [done|]. exists t3. split; [done|].
    destruct H4 as [[-> ->]|[? ->]]; [left|right]; eauto.
  - left. split; [done|]. by exists t2.
Qed.

Lemma ran_elem c (tr : list event) : ran c tr ↔ c ∈ map fst tr.
Proof.
  unfold ran. rewrite list_elem_of_fmap. split.
  - intros [ok Hin]. by exists (c, ok).
  - intros ([c' ok] & -> & Hin). by exists ok.
Qed.


(** [coveralls] runs in the jobs that pass for version 2.7, and in no
    other. *)
Lemma coveralls_ran v w :
  ran "coveralls" (log (run_job travis v w)) ↔
  v = "2.7" ∧ result (run_job travis v w) = Passed.
Proof.
  rewrite ran_elem. pose proof coveralls_not_installed as Hn.
  destruct (job_cases v w) as
    [(Hr & pre & c & -> & [k Hp])|
     [(Hr & ts & -> & Hts & _)|(Hr & ta & -> & Hta)]]; rewrite Hr.
  - rewrite map_app, fst_all_ok. cbn [map fst]. split; [|by intros [_ [=]]].
    intros Hin. exfalso; apply Hn. rewrite Hp.
    by do 2 (apply elem_of_app; left).
  - rewrite map_app, fst_all_ok, Hts. split; [|by intros [_ [=]]].
    intros Hin. by exfalso.
  - rewrite !map_app, !fst_all_ok, app_assoc.
    destruct Hta as [(-> & ok & ->)|(Hv & ->)]; cbn [map fst].
    + split; [done|]. intros _. apply elem_of_app; right; left.
    + rewrite app_nil_r. split; [by intros ?|]. by intros [? _].
Qed.

(** C3: coverage is reported for version 2.7 only.  Where the
    [after_success] sequence runs, [coveralls] runs if and only if the
    version is 2.7; a job runs it exactly when it is the job of 2.7 and its
    script has passed, so no job of another version reports coverage; and
    2.7 is a version of the build matrix. *)
Theorem coverage_only_for_2_7 v w :
  (ran "coveralls" (run_after_success v w).2 ↔ v = "2.7") ∧
  (ran "coveralls" (log (run_job travis v w)) ↔
   v = "2.7" ∧ result (run_job travis v w) = Passed) ∧
  "2.7" ∈ python travis.
Proof.
  split; [|split; [apply coveralls_ran|]].
  - destruct (after_success_spec v w) as [[-> ->]|[Hv ->]].
    + split; [done|]. intros _. eexists. apply list_elem_of_here.
    + split; [|done]. by intros [ok ?%elem_of_nil].
  - cbn. apply list_elem_of_further, list_elem_of_here.
Qed.



End Jobs.

(** *** The control file on a concrete machine *)

Import Machine.


End TravisFacts.

(** ** Part 10. The two scripts as command pipelines *)

Module Pipelines.
Import Script Rules Schedule Travis Machine RulesFacts TravisFacts.

(** A job of version 2.7 on a machine where everything works runs the
    whole control file. *)
Example whole_pipeline_runs : commands_run "2.7" fresh = pipeline.
Proof. vm_compute; reflexivity. Qed.

(** The job of version 3.6 passes on a machine where everything works,
    and yet [coveralls], a command listed in [after_success], has not run:
    the sequence has a conditional. *)
Lemma coveralls_skipped_for_3_6 :
  result (run_job travis "3.6" fresh) = Passed ∧
  "coveralls" ∈ listed (after_success travis) ∧
  forallb is_simple (after_success travis) = false ∧
  ¬ ran "coveralls" (log (run_job travis "3.6" fresh)).
Proof.
  split; [vm_compute; reflexivity|].
  split; [apply list_elem_of_here|].
  split; [reflexivity|].
  rewrite coveralls_ran. by intros [[=] _].
Qed.

(** On a machine where the find pipeline fails, [clean] runs [dh_clean]
    after the failure and succeeds: the failure is ignored. *)
Lemma clean_failure_ignored :
  (make "clean" (broken [find_pyc])).1 = Success ∧
  trace (make "clean" (broken [find_pyc])).2 =
  [ ("dh_testdir", true); ("dh_testroot", true);
    ("rm -rf build-stamp build", true) ]
  ++ (find_pyc, false) :: [ ("dh_clean", true) ] ∧
  failure_ignored (trace (make "clean" (broken [find_pyc])).2).
Proof.
  split; [vm_compute; reflexivity|].
  split; [vm_compute; reflexivity|].
  exists [ ("dh_testdir", true); ("dh_testroot", true);
           ("rm -rf build-stamp build", true) ],
         find_pyc, [ ("dh_clean", true) ].
  split; [vm_compute; reflexivity|discriminate].
Qed.

(** In [script] a failing command does not keep the following ones from
    running. *)
Example script_goes_on_after_failure :
  result (run_job travis "2.7" (broken ["make check"])) = Failed ∧
  map fst (log (run_job travis "2.7" (broken ["make check"])))
  = install_cmds ++ script_cmds.
Proof. split; vm_compute; reflexivity. Qed.

Section Amended.
Context {W : Type} `{World W}.
Implicit Types (w : W).

(** C5, amended: the sequences [install] and [script] and the recipes
    of the rules file have no conditional.  Once [install] has gone
    through, every command of [install] and of [script] has run, whatever
    the version; a recipe that succeeds has run every one of its lines.
    The one conditional is in [after_success]: [coveralls] runs for version
    2.7 only. *)
Theorem only_coveralls_is_conditional v w :
  forallb is_simple (install travis ++ script travis) = true ∧
  (result (run_job travis v w) ≠ Errored →
   ∀ c, c ∈ listed (install travis) ++ listed (script travis) →
        ran c (log (run_job travis v w))) ∧
  (∀ r w0 w1 tr,
     r ∈ rules debian_rules →
     run_recipe (recipe r) w0 = (Success, w1, tr) →
     map fst tr = commands r) ∧
  (ran "coveralls" (run_after_success v w).2 ↔ v = "2.7").
Proof.
  split; [reflexivity|]. split; [|split].
  - change (listed (install travis) ++ listed (script travis))
      with (install_cmds ++ script_cmds).
    intros Hr c Hc. apply ran_elem.
    destruct (job_cases v w) as
      [(Hres & _)|[(_ & ts & -> & Hts & _)|(_ & ta & -> & _)]];
      [done|..].
    + by rewrite map_app, fst_all_ok, Hts.
    + rewrite app_assoc, map_app, map_app, !fst_all_ok.
      apply elem_of_app. by left.
  - intros r w0 w1 tr _ E. by eapply run_recipe_success.
  - destruct (after_success_spec v w) as [[-> ->]|[Hv ->]].
    + split; [done|]. intros _. eexists. apply list_elem_of_here.
    + split; [|done]. by intros [ok ?%elem_of_nil].
Qed.

(** C6, amended: in the rules file a failing command is the last one
    that runs and make ends in an error, unless it is the find pipeline of
    [clean], whose [-] prefix has make go on; in the control file a failing
    command of [install] is the last of the job, and after a failing command
    of [script] the job is failed and [after_success] does not run. *)
Theorem failure_stops_unless_ignored goal v w :
  (∀ pre c post,
     trace (make goal w).2 = pre ++ (c, false) :: post →
     c ≠ find_pyc →
     post = [] ∧ (make goal w).1 = Error) ∧
  (∀ pre c post,
     log (run_job travis v w) = pre ++ (c, false) :: post →
     c ∈ install_cmds →
     post = [] ∧ result (run_job travis v w) = Errored) ∧
  (∀ pre c post,
     log (run_job travis v w) = pre ++ (c, false) :: post →
     c ∈ script_cmds →
     result (run_job travis v w) = Failed ∧
     ¬ ran "coveralls" (log (run_job travis v w))).
Proof.
  split; [intros pre c post; apply make_failure_stops|].
  pose proof coveralls_not_installed as Hn.
  split; intros pre c post E Hc.
  - destruct (job_cases v w) as
      [(Hr & p & c' & El & _)|[(_ & ts & El & Hts & _)|(_ & ta & El & Hta)]];
      rewrite El in E.
    + apply app_split_notin in E as (p' & -> & E);
        [|apply all_ok_no_failure].
      by apply singleton_split in E as (_ & -> & _).
    + exfalso. apply app_split_notin in E as (p' & -> & E);
        [|apply all_ok_no_failure].
      apply (install_script_disjoint c); [done|].
      rewrite <- Hts, E, map_app. apply elem_of_app; right; left.
    + exfalso. apply app_split_notin in E as (p' & -> & E);
        [|apply all_ok_no_failure].
      apply app_split_notin in E as (p'' & -> & E);
        [|apply all_ok_no_failure].
      destruct Hta as [(_ & ok & ->)|(_ & ->)]; [|by destruct p''].
      apply singleton_split in E as (_ & _ & [= -> _]).
      apply Hn, elem_of_app. by left.
  - destruct (job_cases v w) as
      [(Hr & p & c' & El & Hp)|[(Hr & ts & El & Hts & _)|(_ & ta & El & Hta)]].
    + exfalso. rewrite El in E.
      apply app_split_notin in E as (p' & -> & E);
        [|apply all_ok_no_failure].
      apply singleton_split in E as (_ & _ & [= ->]).
      apply (install_script_disjoint c'); [|done].
      destruct Hp as [k ->]. apply elem_of_app; left.
      apply elem_of_app; right; left.
    + split; [done|]. rewrite coveralls_ran, Hr. by intros [_ [=]].
    + exfalso. rewrite El in E.
      apply app_split_notin in E as (p' & -> & E);
        [|apply all_ok_no_failure].
      apply app_split_notin in E as (p'' & -> & E);
        [|apply all_ok_no_failure].
      destruct Hta as [(_ & ok & ->)|(_ & ->)]; [|by destruct p''].
      apply singleton_split in E as (_ & _ & [= -> _]).
      apply Hn, elem_of_app. by right.
Qed.

End Amended.

(** The job of version 3.6 on a machine where everything works: the tests
    have run, whatever the version. *)
Lemma only_coveralls_is_conditional_3_6 :
  ran "make test" (log (run_job travis "3.6" fresh)).
Proof.
  destruct (only_coveralls_is_conditional "3.6" fresh) as (_ & Hall & _).
  apply Hall.
  - vm_compute; discriminate.
  - vm_compute. do 13 apply list_elem_of_further. apply list_elem_of_here.
Defined.

(** [clean] by a user who is not root: [dh_testroot] fails and nothing
    follows. *)
Lemma failure_stops_unless_ignored_not_root :
  (make "clean" (broken ["dh_testroot"])).1 = Error.
Proof.
  destruct (failure_stops_unless_ignored "clean" "2.7" (broken ["dh_testroot"]))
    as (Hmake & _).
  apply (Hmake [("dh_testdir", true)] "dh_testroot" []).
  - vm_compute; reflexivity.
  - discriminate.
Defined.

End Pipelines.

(** ** Part 11. Further properties of the rules file *)

Module RulesOrder.
Import Script Rules Schedule Order Machine RulesFacts TravisFacts.

Lemma guarded_by_sound g needs seen cs l1 c l2 :
  guarded_by g needs seen cs = true →
  cs = l1 ++ c :: l2 →
  needs c = true →
  seen = true ∨ g ∈ l1.
Proof.
  revert seen cs; induction l1 as [|a l1 IH]; intros seen cs Hg -> Hn;
    simpl in Hg; apply andb_true_iff in Hg as [H1 H2].
  - rewrite Hn, orb_false_r in H1. by left.
  - destruct (IH _ _ H2 eq_refl Hn) as [Hs|Hin]; [|right; by right].
    apply orb_true_iff in Hs as [Hs|Hs]; [by left|right].
    apply String.eqb_eq in Hs as ->. left.
Qed.

Lemma times_prefix c (l1 l2 : list string) :
  l1 `prefix_of` l2 → (times c l1 ≤ times c l2)%nat.
Proof.
  intros [k ->]. unfold times. rewrite List.filter_app, length_app. lia.
Qed.

(** A list of events without failure is the list of its commands, all
    successful. *)
Lemma no_failure_all_ok (tr : list event) :
  (∀ c, (c, false) ∉ tr) → tr = all_ok (map fst tr).
Proof.
  induction tr as [|[c ok] tr IH]; intros Hn; simpl; [done|].
  destruct ok; [|by exfalso; apply (Hn c); left].
  f_equal. apply IH. intros c' Hin. apply (Hn c'). by right.
Qed.

Ltac elem_here :=
  repeat first [apply list_elem_of_here | apply list_elem_of_further].

Section Order.
Context {W : Type} `{World W}.
Implicit Types (w : W) (st : @mstate W) (tr : list event).

(** A recipe that ends in an error has a failed line without [-] as its
    last command. *)
Lemma run_recipe_error ls w w' tr :
  run_recipe ls w = (Error, w', tr) →
  ∃ pre l, tr = pre ++ [(command l, false)] ∧ l ∈ ls ∧ ignore_errors l = false.
Proof.
  revert w tr; induction ls as [|l r IH]; intros w tr; simpl; [done|].
  destruct (exec (command l) w) as [ok w1].
  destruct (ok || ignore_errors l) eqn:Eo.
  - destruct (run_recipe r w1) as [[o w2] t] eqn:E.
    intros [= -> -> <-].
    destruct (IH _ _ E) as (pre & l' & -> & Hl & Hi).
    exists ((command l, ok) :: pre), l'. split; [done|]. split; [by right|done].
  - intros [= <- <-]. apply orb_false_iff in Eo as [-> Hi].
    exists [], l. split; [done|]. split; [left|done].
Qed.

(** The recipes of a plan run in order: the commands of a run are an
    initial part of the commands of the plan, and all of them when the run
    succeeds. *)
Lemma run_rules_prefix rs st :
  ∃ ext, trace (run_rules rs st).2 = trace st ++ ext ∧
         map fst ext `prefix_of` flat_map commands rs ∧
         ((run_rules rs st).1 = Success → map fst ext = flat_map commands rs).
Proof.
  revert st; induction rs as [|r rs IH]; intros st; simpl.
  - exists []. by rewrite app_nil_r.
  - unfold remake.
    pose proof (run_recipe_prefix (recipe r) (world st)) as Hp.
    pose proof (run_recipe_success (recipe r) (world st)) as Hs.
    destruct (run_recipe (recipe r) (world st)) as [[o w1] t]; simpl in Hp.
    destruct o; simpl;
      [|exists t; split; [done|]; split; [by apply prefix_app_r|done]..].
    destruct (IH (MState w1 (target r :: made st) (trace st ++ t)))
      as (ext & E & Hpre & Hsucc).
    exists (t ++ ext). rewrite E; simpl. rewrite <- app_assoc, map_app.
    rewrite (Hs w1 t eq_refl). split; [done|]. split.
    + by apply prefix_app.
    + intros Ho. unfold commands at 1. by rewrite Hsucc.
Qed.

Lemma run_rules_error rs st st' :
  run_rules rs st = (Error, st') →
  ∃ pre r l, trace st' = pre ++ [(command l, false)] ∧
             r ∈ rs ∧ l ∈ recipe r ∧ ignore_errors l = false.
Proof.
  revert st; induction rs as [|r rs IH]; intros st; simpl; [done|].
  unfold remake.
  destruct (run_recipe (recipe r) (world st)) as [[o w1] t] eqn:E.
  destruct o.
  - intros Hr. destruct (IH _ Hr) as (pre & r' & l & ? & ? & ? & ?).
    exists pre, r', l. split; [done|]. split; [by right|done].
  - intros [= <-]; simpl.
    destruct (run_recipe_error _ _ _ _ E) as (pre & l & -> & Hl & Hi).
    exists (trace st ++ pre), r, l. rewrite app_assoc.
    split; [done|]. split; [left|done].
  - done.
Qed.

Lemma plan_in_all_plans w goal : plan w goal ∈ all_plans.
Proof.
  unfold plan, stamp.
  repeat match goal with
  | |- context [if ?b then _ else _] =>
      destruct b; [destruct (mtime w "build-stamp"); cbn; elem_here|]
  end.
  cbn; elem_here.
Qed.

Lemma plan_forallb (Q : list rule → bool) w goal :
  forallb Q all_plans = true → Q (plan w goal) = true.
Proof.
  intros HQ. rewrite forallb_forall in HQ. apply HQ.
  apply list_elem_of_In, plan_in_all_plans.
Qed.

Lemma run_commands_prefix goal w :
  goal ∈ targets →
  map fst (trace (make goal w).2) `prefix_of` plan_commands w goal.
Proof.
  intros Hg. pose proof (make_plan goal w Hg) as E. unfold obs in E.
  injection E as _ _ ->.
  destruct (run_rules_prefix (plan w goal) (start w)) as (ext & -> & Hp & _).
  done.
Qed.

(** X2: for a goal of the rules file, the commands make runs are an
    initial part of the commands of its plan, in that order and without a
    gap. *)
Theorem make_commands_prefix goal w :
  goal ∈ targets →
  map fst (trace (make goal w).2) `prefix_of` plan_commands w goal.
Proof. apply run_commands_prefix. Qed.

(** In the rules file, only the find pipeline has a line with [-]. *)
Lemma strict_lines r l :
  r ∈ rules debian_rules → l ∈ recipe r → ignore_errors l = false →
  command l ≠ find_pyc.
Proof.
  cbn. intros Hr.
  repeat (apply elem_of_cons in Hr as [->|Hr]);
    [..|by apply elem_of_nil in Hr]; cbn; intros Hl;
    repeat (apply elem_of_cons in Hl as [->|Hl]);
    try (by apply elem_of_nil in Hl); cbn; done.
Qed.

Lemma make_ends goal w :
  goal ∈ targets →
  ((make goal w).1 = Success ∧
   map fst (trace (make goal w).2) = plan_commands w goal ∧
   ∀ c, (c, false) ∈ trace (make goal w).2 → c = find_pyc)
  ∨ ((make goal w).1 = Error ∧
     ∃ pre c, trace (make goal w).2 = pre ++ [(c, false)] ∧ c ≠ find_pyc).
Proof.
  intros Hg. pose proof (make_plan goal w Hg) as E. unfold obs in E.
  injection E as Eo _ Et.
  pose proof (run_rules_prefix (plan w goal) (start w)) as (ext & Ex & _ & Hs).
  pose proof (run_rules_not_exhausted (plan w goal) (start w)) as Hne.
  destruct (run_rules (plan w goal) (start w)) as [o st'] eqn:Er.
  simpl in *. destruct o; [left|right|done].
  - split; [done|]. split; [by rewrite Et, Ex, Hs|].
    intros c Hin. destruct (decide (c = find_pyc)) as [|Hc]; [done|exfalso].
    apply list_elem_of_split in Hin as (pre & post & Hin).
    destruct (make_failure_stops _ _ _ _ _ Hin Hc) as [_ Hf]. congruence.
  - split; [done|].
    destruct (run_rules_error _ _ _ Er) as (pre & r & l & Hl & Hr & Hlr & Hi).
    exists pre, (command l). rewrite Et. split; [done|].
    eapply strict_lines; [|done..]. by eapply plan_rules.
Qed.

(** X3: a goal of the rules file ends in one of two ways.  Either make
    succeeds, having run every command of the plan, none of which failed
    except perhaps the find pipeline; or it ends in an error right after a
    command that failed and is not the find pipeline.  A goal never fails
    for want of a rule. *)
Theorem make_outcome goal w :
  goal ∈ targets →
  ((make goal w).1 = Success ∧
   map fst (trace (make goal w).2) = plan_commands w goal ∧
   ∀ c, (c, false) ∈ trace (make goal w).2 → c = find_pyc)
  ∨ ((make goal w).1 = Error ∧
     ∃ pre c, trace (make goal w).2 = pre ++ [(c, false)] ∧ c ≠ find_pyc).
Proof. apply make_ends. Qed.

(** A goal whose plan is without the find pipeline: when make succeeds,
    every command of the plan has run with success. *)
Lemma success_all_ok goal w st :
  goal ∈ targets →
  find_pyc ∉ plan_commands w goal →
  make goal w = (Success, st) →
  trace st = all_ok (plan_commands w goal).
Proof.
  intros Hg Hfind Hm.
  destruct (make_ends goal w Hg) as [(_ & Hc & Hf)|(Ho & _)];
    rewrite Hm in *; [|by simpl in Ho].
  change ((Success, st).2) with st in Hc, Hf.
  rewrite <- Hc. apply no_failure_all_ok.
  intros c Hin. specialize (Hf c Hin). subst c.
  apply Hfind. rewrite <- Hc. apply list_elem_of_fmap. by exists (find_pyc, false).
Qed.

(** X1: a successful [binary] has run, each command once and with
    success: the [build-stamp] recipe when the stamp was missing, then the
    recipe of [install], then that of [binary-indep], then that of
    [binary-arch]. *)
Theorem binary_success_trace w st :
  make "binary" w = (Success, st) →
  trace st =
  all_ok (flat_map commands (stamp w) ++ commands install_rule
          ++ commands binary_indep_rule ++ commands binary_arch_rule).
Proof.
  intros Hm.
  assert (plan_commands w "binary" =
          flat_map commands (stamp w) ++ commands install_rule
          ++ commands binary_indep_rule ++ commands binary_arch_rule) as Ep.
  { unfold plan_commands, plan. cbn [String.eqb Ascii.eqb Bool.eqb].
    rewrite flat_map_app. f_equal. }
  rewrite <- Ep. apply success_all_ok; [unfold targets; cbn; elem_here| |done].
  rewrite Ep. unfold stamp. destruct (mtime w "build-stamp"); compute_done.
Qed.

(** Where a command of a run needs a guard that the plans put before it,
    the guard has run before it, with success. *)
Lemma guarded_in_run g needs goal w pre c ok post :
  g ≠ find_pyc →
  forallb (λ p, guarded_by g needs false (flat_map commands p)) all_plans
  = true →
  trace (make goal w).2 = pre ++ (c, ok) :: post →
  needs c = true →
  (g, true) ∈ pre.
Proof.
  intros Hg Hall Htr Hn.
  destruct (decide (goal ∈ targets)) as [Ht|Ht];
    [|destruct (make_no_target goal w Ht) as (_ & _ & Et);
      rewrite Et in Htr; by destruct pre].
  destruct (run_commands_prefix goal w Ht) as [k Hk].
  rewrite Htr, map_app in Hk. cbn [map fst] in Hk. rewrite <- app_assoc in Hk.
  pose proof (plan_forallb _ w goal Hall) as Hgd. cbn beta in Hgd.
  destruct (guarded_by_sound _ _ _ _ _ _ _ Hgd Hk Hn) as [|Hin]; [done|].
  apply list_elem_of_fmap in Hin as ([g' b] & Eg & Hin).
  cbn [fst] in Eg. subst g'.
  destruct b; [done|exfalso].
  apply list_elem_of_split in Hin as (p1 & p2 & ->).
  rewrite <- app_assoc in Htr.
  destruct (make_failure_stops _ _ _ _ _ Htr Hg) as [Hp _].
  by destruct p2.
Qed.

(** X4: the stamp is only touched after the build: before a
    [touch build-stamp] of a run, [python setup.py build] has run with
    success. *)
Theorem stamp_after_build goal w pre ok post :
  trace (make goal w).2 = pre ++ ("touch build-stamp", ok) :: post →
  ("python setup.py build", true) ∈ pre.
Proof.
  intros Htr.
  eapply (guarded_in_run "python setup.py build" is_touch_stamp);
    [discriminate|vm_compute; reflexivity|exact Htr|reflexivity].
Qed.

(** X5: apart from the two checks and the commands of [build-stamp], a
    command of a run comes after a [dh_testroot] that has succeeded. *)
Theorem root_check_first goal w pre c ok post :
  trace (make goal w).2 = pre ++ (c, ok) :: post →
  behind_root_check c = true →
  ("dh_testroot", true) ∈ pre.
Proof.
  intros Htr Hc.
  eapply (guarded_in_run "dh_testroot" behind_root_check);
    [discriminate|vm_compute; reflexivity|exact Htr|exact Hc].
Qed.

Lemma times_notin c (l : list string) : c ∉ l → times c l = 0.
Proof.
  unfold times. induction l as [|a l IH]; simpl; [done|]. intros Hn.
  destruct (String.eqb_spec c a) as [->|_]; [exfalso; apply Hn; left|].
  apply IH. intros ?; apply Hn; by right.
Qed.

Lemma times_nodup c (l : list string) : NoDup l → (times c l ≤ 1)%nat.
Proof.
  induction 1 as [|a l Ha Hl IH]; [unfold times; simpl; lia|].
  unfold times in *. simpl.
  destruct (String.eqb_spec c a) as [->|_]; [|done].
  simpl. pose proof (times_notin a l Ha) as E. unfold times in E. lia.
Qed.

Lemma times_filter c (P : string → bool) (l : list string) :
  P c = true → times c (List.filter P l) = times c l.
Proof.
  intros HP. unfold times. induction l as [|a l IH]; simpl; [done|].
  destruct (P a) eqn:Ea; simpl.
  - destruct (String.eqb c a); simpl; by rewrite IH.
  - destruct (String.eqb_spec c a) as [->|_]; [congruence|done].
Qed.

Lemma times_elem c (l : list string) : c ∈ l → (1 ≤ times c l)%nat.
Proof.
  unfold times. induction 1 as [c l|c a l _ IH]; simpl.
  - rewrite String.eqb_refl. simpl. lia.
  - destruct (String.eqb c a); simpl; lia.
Qed.

(** X6: apart from the two checks and the touching of the stamp, no
    command runs twice in a run; so [install] stages once, and each package
    is assembled once, also for [binary], where both halves ask for
    [install].  In a run that succeeds, such a command of the plan has run
    exactly once. *)
Theorem once_per_run goal w c :
  mem c repeated = false →
  (times c (map fst (trace (make goal w).2)) ≤ 1)%nat ∧
  (goal ∈ targets → (make goal w).1 = Success →
   c ∈ plan_commands w goal →
   times c (map fst (trace (make goal w).2)) = 1).
Proof.
  intros Hc.
  assert (times c (map fst (trace (make goal w).2)) ≤ 1)%nat as Hle.
  { destruct (decide (goal ∈ targets)) as [Ht|Ht];
      [|destruct (make_no_target goal w Ht) as (_ & _ & ->);
        unfold times; simpl; lia].
    etrans; [apply times_prefix, run_commands_prefix, Ht|].
    rewrite <- (times_filter c (λ x, negb (mem x repeated))) by by rewrite Hc.
    apply times_nodup.
    pose proof (plan_forallb
      (λ p, bool_decide (NoDup (List.filter (λ x, negb (mem x repeated))
                                            (flat_map commands p)))) w goal)
      as Hp.
    assert (forallb
      (λ p, bool_decide (NoDup (List.filter (λ x, negb (mem x repeated))
                                            (flat_map commands p))))
      all_plans = true) as Hall by (vm_compute; reflexivity).
    specialize (Hp Hall). cbn beta in Hp.
    by apply bool_decide_eq_true_1 in Hp. }
  split; [done|]. intros Ht Hs Hin.
  destruct (make_ends goal w Ht) as [(_ & Hcs & _)|(He & _)]; [|congruence].
  rewrite <- Hcs in Hin. apply times_elem in Hin. lia.
Qed.

(** X7: a build after a clean starts over.  On a world where removing
    the stamp removes it and the two commands that follow in [clean] do not
    bring it back, a successful [clean] leaves no stamp, and a [build] that
    then succeeds has run the whole recipe of [build-stamp]. *)
Theorem build_after_clean w st :
  (∀ w0 w1, exec "rm -rf build-stamp build" w0 = (true, w1) →
            mtime w1 "build-stamp" = None) →
  (∀ c w0 b w1, c ∈ [find_pyc; "dh_clean"] → exec c w0 = (b, w1) →
                mtime w0 "build-stamp" = None →
                mtime w1 "build-stamp" = None) →
  make "clean" w = (Success, st) →
  mtime (world st) "build-stamp" = None ∧
  ∀ st2, make "build" (world st) = (Success, st2) →
         trace st2 = all_ok (commands build_stamp_rule).
Proof.
  intros Hrm Hkeep Hclean.
  assert (mtime (world st) "build-stamp" = None) as Hnone.
  { revert Hclean. unfold make; cbn. unfold remake; cbn.
    destruct (exec "dh_testdir" w) as [[] w1]; cbn; [|done].
    destruct (exec "dh_testroot" w1) as [[] w2]; cbn; [|done].
    destruct (exec "rm -rf build-stamp build" w2) as [[] w3] eqn:E3; cbn;
      [|done].
    destruct (exec find_pyc w3) as [b4 w4] eqn:E4; cbn.
    rewrite orb_true_r; cbn.
    destruct (exec "dh_clean" w4) as [[] w5] eqn:E5; cbn; [|done].
    intros [= <-]; cbn.
    eapply Hkeep; [|exact E5|]; [elem_here|].
    eapply Hkeep; [|exact E4|]; [elem_here|].
    by eapply Hrm. }
  split; [done|]. intros st2 Hb.
  assert (plan_commands (world st) "build" = commands build_stamp_rule) as Ep.
  { unfold plan_commands, plan, stamp. cbn [String.eqb Ascii.eqb Bool.eqb].
    by rewrite Hnone. }
  rewrite <- Ep. apply success_all_ok; [unfold targets; cbn; elem_here| |done].
  rewrite Ep. compute_done.
Qed.

End Order.

(** *** On a concrete machine *)

Lemma machine_rm (m m' : machine) :
  exec "rm -rf build-stamp build" m = (true, m') →
  mtime m' "build-stamp" = None.
Proof.
  cbn. unfold machine_exec. destruct (mem _ _); [done|].
  intros [= <-]. cbn. rewrite lookup_delete_ne by done.
  apply lookup_delete_eq.
Qed.

Lemma machine_keep c (m : machine) b (m' : machine) :
  c ∈ [find_pyc; "dh_clean"] → exec c m = (b, m') →
  mtime m "build-stamp" = None → mtime m' "build-stamp" = None.
Proof.
  intros Hc. cbn. unfold machine_exec. destruct (mem _ _); [by intros [= <- <-]|].
  intros [= <- <-].
  repeat (apply elem_of_cons in Hc as [->|Hc]);
    [..|by apply elem_of_nil in Hc]; done.
Qed.

(** [binary] on a fresh tree. *)
Lemma binary_success_trace_fresh :
  trace (make "binary" fresh).2 =
  all_ok (commands build_stamp_rule ++ commands install_rule
          ++ commands binary_indep_rule ++ commands binary_arch_rule).
Proof.
  rewrite (binary_success_trace fresh (make "binary" fresh).2);
    vm_compute; reflexivity.
Defined.

(** [install] on a machine without [dh_installdirs]. *)
Lemma make_commands_prefix_install :
  ["dh_testdir"; "python setup.py build"; "touch build-stamp";
   "touch build-stamp"; "dh_testdir"; "dh_testroot"; "dh_clean -k";
   "dh_installdirs"]
  `prefix_of` plan_commands (broken ["dh_installdirs"]) "install".
Proof.
  pose proof (make_commands_prefix "install" (broken ["dh_installdirs"])) as Hp.
  apply Hp. unfold targets; cbn; elem_here.
Defined.

Lemma make_outcome_install :
  (make "install" (broken ["dh_installdirs"])).1 = Error ∧
  ∃ pre c, trace (make "install" (broken ["dh_installdirs"])).2
           = pre ++ [(c, false)] ∧ c ≠ find_pyc.
Proof.
  destruct (make_outcome "install" (broken ["dh_installdirs"]))
    as [(Hs & _)|He].
  - unfold targets; cbn; elem_here.
  - vm_compute in Hs. discriminate.
  - exact He.
Defined.

(** [build] on a fresh tree: the first touch. *)
Lemma stamp_after_build_fresh :
  trace (make "build" fresh).2 =
  [("dh_testdir", true); ("python setup.py build", true)]
  ++ ("touch build-stamp", true) :: [("touch build-stamp", true)] ∧
  ("python setup.py build", true)
  ∈ [("dh_testdir", true); ("python setup.py build", true)].
Proof.
  assert (trace (make "build" fresh).2 =
          [("dh_testdir", true); ("python setup.py build", true)]
          ++ ("touch build-stamp", true) :: [("touch build-stamp", true)])
    as E by (vm_compute; reflexivity).
  split; [exact E|]. exact (stamp_after_build "build" fresh _ _ _ E).
Defined.

(** [clean] on a fresh tree: the removal. *)
Lemma root_check_first_clean :
  trace (make "clean" fresh).2 =
  [("dh_testdir", true); ("dh_testroot", true)]
  ++ ("rm -rf build-stamp build", true)
     :: [(find_pyc, true); ("dh_clean", true)] ∧
  ("dh_testroot", true) ∈ [("dh_testdir", true); ("dh_testroot", true)].
Proof.
  assert (trace (make "clean" fresh).2 =
          [("dh_testdir", true); ("dh_testroot", true)]
          ++ ("rm -rf build-stamp build", true)
             :: [(find_pyc, true); ("dh_clean", true)])
    as E by (vm_compute; reflexivity).
  split; [exact E|].
  exact (root_check_first "clean" fresh _ _ _ _ E eq_refl).
Defined.

(** [binary] on a fresh tree: one installation. *)
Lemma once_per_run_binary :
  times setup_install (map fst (trace (make "binary" fresh).2)) = 1.
Proof.
  destruct (once_per_run "binary" fresh setup_install eq_refl) as [_ Hone].
  apply Hone.
  - unfold targets; cbn; elem_here.
  - vm_compute; reflexivity.
  - vm_compute. elem_here.
Defined.

(** [build], [clean], [build] on a fresh tree. *)
Lemma build_after_clean_fresh :
  trace (make "build"
           (world (make "clean" (world (make "build" fresh).2)).2)).2
  = all_ok (commands build_stamp_rule).
Proof.
  destruct (build_after_clean (world (make "build" fresh).2)
              (make "clean" (world (make "build" fresh).2)).2
              machine_rm machine_keep) as [_ Hb].
  - vm_compute; reflexivity.
  - apply Hb. vm_compute; reflexivity.
Defined.

End RulesOrder.

(** ** Part 12. Further properties of the CI control file *)

Module TravisOrder.
Import Script Travis Machine RulesFacts TravisFacts.

Ltac elem_here :=
  repeat first [apply list_elem_of_here | apply list_elem_of_further].

(** A list of events that is not all success has a failure. *)
Lemma some_failure (ts : list event) :
  ts ≠ all_ok (map fst ts) → ∃ c, (c, false) ∈ ts.
Proof.
  induction ts as [|[c ok] ts IH]; simpl; [done|]. intros Hne.
  destruct ok; [|exists c; left].
  destruct IH as [c' Hc'].
  - intros E. apply Hne. by rewrite <- E.
  - exists c'. by right.
Qed.

Section Results.
Context {W : Type} `{World W}.
Implicit Types (w : W).

(** X8: a job passes exactly when no command other than [coveralls] has
    failed in it: the exit status of [coveralls] does not count. *)
Theorem job_passes_iff v w :
  result (run_job travis v w) = Passed ↔
  ∀ c, (c, false) ∈ log (run_job travis v w) → c = "coveralls".
Proof.
  pose proof coveralls_not_installed as Hn.
  destruct (job_cases v w) as
    [(-> & pre & c & -> & [k Hp])|
     [(-> & ts & -> & Hts & Hne)|(-> & ta & -> & Hta)]].
  - split; [done|]. intros Hall. exfalso. apply Hn.
    rewrite <- (Hall c) by (apply elem_of_app; right; left).
    rewrite Hp. do 2 (apply elem_of_app; left).
    apply elem_of_app; right; left.
  - split; [done|]. intros Hall. exfalso.
    rewrite <- Hts in Hne. destruct (some_failure ts Hne) as [c Hc].
    apply Hn. rewrite <- (Hall c) by (apply elem_of_app; by right).
    apply elem_of_app; right. rewrite <- Hts.
    apply list_elem_of_fmap. by exists (c, false).
  - split; [|done]. intros _ c Hin.
    apply elem_of_app in Hin as [Hin|Hin];
      [by apply all_ok_no_failure in Hin|].
    apply elem_of_app in Hin as [Hin|Hin];
      [by apply all_ok_no_failure in Hin|].
    destruct Hta as [(_ & ok & ->)|(_ & ->)]; [|by apply elem_of_nil in Hin].
    by apply list_elem_of_singleton in Hin as [= -> _].
Qed.

(** X9: a job errors exactly when a command of [install] has failed, and
    then nothing but commands of [install] has run: the checks, the build
    and the tests do not start on a broken installation. *)
Theorem job_errors_iff v w :
  (result (run_job travis v w) = Errored ↔
   ∃ c, c ∈ install_cmds ∧ (c, false) ∈ log (run_job travis v w)) ∧
  (result (run_job travis v w) = Errored →
   ∀ c, ran c (log (run_job travis v w)) → c ∈ install_cmds).
Proof.
  pose proof coveralls_not_installed as Hn.
  destruct (job_cases v w) as
    [(-> & pre & c & -> & [k Hp])|
     [(-> & ts & -> & Hts & Hne)|(-> & ta & -> & Hta)]].
  - split.
    + split; [intros _|done]. exists c. split.
      * rewrite Hp. apply elem_of_app; left. apply elem_of_app; right; left.
      * apply elem_of_app; right; left.
    + intros _ c' Hr. apply ran_elem in Hr.
      rewrite map_app, fst_all_ok in Hr. cbn [map fst] in Hr.
      rewrite Hp. by apply elem_of_app; left.
  - split; [|done]. split; [done|]. intros (c & Hc & Hin). exfalso.
    apply elem_of_app in Hin as [Hin|Hin];
      [by apply all_ok_no_failure in Hin|].
    apply (install_script_disjoint c Hc). rewrite <- Hts.
    apply list_elem_of_fmap. by exists (c, false).
  - split; [|done]. split; [done|]. intros (c & Hc & Hin). exfalso.
    apply elem_of_app in Hin as [Hin|Hin];
      [by apply all_ok_no_failure in Hin|].
    apply elem_of_app in Hin as [Hin|Hin];
      [by apply all_ok_no_failure in Hin|].
    destruct Hta as [(_ & ok & ->)|(_ & ->)]; [|by apply elem_of_nil in Hin].
    apply list_elem_of_singleton in Hin as [= -> _].
    apply Hn, elem_of_app. by left.
Qed.

(** X10: where [coveralls] runs it is the last command of the job, the
    version is 2.7, and before it every command of [install] and of [script]
    has run with success, the installation of the coveralls tool and the
    tests among them. *)
Theorem coveralls_comes_last v w pre ok post :
  log (run_job travis v w) = pre ++ ("coveralls", ok) :: post →
  v = "2.7" ∧ pre = all_ok (install_cmds ++ script_cmds) ∧ post = [].
Proof.
  intros E.
  assert (ran "coveralls" (log (run_job travis v w))) as Hr.
  { exists ok. rewrite E. apply elem_of_app; right; left. }
  apply coveralls_ran in Hr as [-> Hres]. split; [done|].
  pose proof coveralls_not_installed as Hn.
  assert (∀ cs b, "coveralls" ∉ cs → ("coveralls", b) ∉ all_ok cs) as Hno.
  { intros cs b Hcs Hin. apply Hcs. unfold all_ok in Hin.
    by apply list_elem_of_fmap in Hin as (x & [= <- _] & ?). }
  destruct (job_cases "2.7" w) as
    [(Hx & _)|[(Hx & _)|(_ & ta & El & Hta)]]; [congruence..|].
  rewrite El in E.
  apply app_split_notin in E as (p1 & -> & E);
    [|apply Hno; intros ?; apply Hn, elem_of_app; by left].
  apply app_split_notin in E as (p2 & -> & E);
    [|apply Hno; intros ?; apply Hn, elem_of_app; by right].
  destruct Hta as [(_ & ok' & ->)|([] & _)]; [|done].
  apply singleton_split in E as (-> & -> & _).
  unfold all_ok. by rewrite map_app, app_nil_r.
Qed.

End Results.

(** The job of version 2.7 on a machine where [coveralls] fails: the job
    passes all the same. *)
Lemma job_passes_iff_coveralls_fails :
  ("coveralls", false) ∈ log (run_job travis "2.7" (broken ["coveralls"])) ∧
  result (run_job travis "2.7" (broken ["coveralls"])) = Passed.
Proof.
  assert (log (run_job travis "2.7" (broken ["coveralls"])) =
          all_ok (install_cmds ++ script_cmds) ++ [("coveralls", false)])
    as E by (vm_compute; reflexivity).
  split; [rewrite E; apply elem_of_app; right; left|].
  apply (job_passes_iff "2.7" (broken ["coveralls"])).
  intros c Hin. rewrite E in Hin.
  apply elem_of_app in Hin as [Hin|Hin];
    [by apply all_ok_no_failure in Hin|].
  by apply list_elem_of_singleton in Hin as [= ->].
Defined.

(** The job of version 3.4 on a machine where [make clobber] fails: the
    job errors and the checks have not started. *)
Lemma job_errors_iff_clobber_fails :
  result (run_job travis "3.4" (broken ["make clobber"])) = Errored ∧
  ¬ ran "make check" (log (run_job travis "3.4" (broken ["make clobber"]))).
Proof.
  destruct (job_errors_iff "3.4" (broken ["make clobber"])) as [[_ He] Hin].
  assert (result (run_job travis "3.4" (broken ["make clobber"])) = Errored)
    as Hres.
  { apply He. exists "make clobber". split; [vm_compute; elem_here|].
    vm_compute. elem_here. }
  split; [done|]. intros Hr. specialize (Hin Hres _ Hr).
  revert Hin. compute_done.
Defined.

(** The job of version 2.7 on a machine where everything works. *)
Lemma coveralls_comes_last_fresh :
  log (run_job travis "2.7" fresh) =
  all_ok (install_cmds ++ script_cmds) ++ ("coveralls", true) :: [] ∧
  "2.7" = "2.7" ∧
  all_ok (install_cmds ++ script_cmds) = all_ok (install_cmds ++ script_cmds)
  ∧ @nil event = [].
Proof.
  assert (log (run_job travis "2.7" fresh) =
          all_ok (install_cmds ++ script_cmds) ++ ("coveralls", true) :: [])
    as E by (vm_compute; reflexivity).
  split; [exact E|]. exact (coveralls_comes_last "2.7" fresh _ _ _ E).
Defined.

End TravisOrder.
